(** * Result computations of package [data/result]

A shallow embedding of [result.go].  A Go function value may read and
write whatever its closure captured, and it may panic; both are made
explicit: a call is a function of the state of the program (the
world) that either panics or returns a value and the next world. *)

From Stdlib Require Import ZArith Bool Arith Lia String.

Set Implicit Arguments.

(** ** Package [data]: the types *)

Module data.

Section Calls.
Variable W : Type.

(** The result of running a Go call in a given world. *)
Inductive run (X : Type) : Type :=
| Ret (x : X) (w : W)
| Panic.

(** A Go call producing an [X]. *)
Definition M (X : Type) : Type := W -> run X.

Definition ret {X} (x : X) : M X := fun w => Ret x w.

Definition bind {X Y} (m : M X) (k : X -> M Y) : M Y :=
  fun w => match m w with
           | Ret x w' => k x w'
           | Panic _ => Panic _
           end.

Definition panic {X} : M X := fun _ => Panic _.

(** [type IO[A any] func() A] *)
Definition IO (A : Type) : Type := M A.
End Calls.

Arguments Ret {W X} x w.
Arguments Panic {W X}.
Arguments ret {W X} x _.
Arguments bind {W X Y} m k _.
Arguments panic {W X} _.

(** The value [var a A] of a Go type. *)
Class ZeroValue (A : Type) : Type := zero_value : A.
#[export] Hint Mode ZeroValue ! : typeclass_instances.

#[export] Instance zero_int : ZeroValue Z := 0%Z.
#[export] Instance zero_bool : ZeroValue bool := false.
#[export] Instance zero_string : ZeroValue string := EmptyString.
#[export] Instance zero_unit : ZeroValue unit := tt.
(** A nil pointer. *)
#[export] Instance zero_pointer {A} : ZeroValue (option A) := None.
(** A nil function: calling it panics. *)
#[export] Instance zero_thunk {W X} : ZeroValue (M W X) := fun _ => Panic.
#[export] Instance zero_func {W A X} : ZeroValue (A -> M W X) :=
fun _ _ => Panic.

Section Types.
Variables W E : Type.

(** The interface type [error]; [None] is the nil error, [Some e] an
    error value. *)
Definition error : Type := option E.

(** [type Result[A any] func() (A, error)] *)
Definition Result (A : Type) : Type := M W (A * error).

(** [type Nilable[A any] *A] *)
Definition Nilable (A : Type) : Type := option A.

(** [func(A) bool], as [FilterOrElse] calls it. *)
Definition Predicate (A : Type) : Type := A -> M W bool.

(** [*ma]: dereferencing a nil pointer panics. *)
Definition deref {A} (ma : Nilable A) : M W A :=
  match ma with
  | Some a => ret a
  | None => panic
  end.
End Types.

Arguments deref {W A} ma _.

End data.

Export data.

Declare Scope go_scope.
Delimit Scope go_scope with go.
Notation "x <- m ;; k" := (bind m (fun x => k))
  (at level 61, m at next level, right associativity) : go_scope.
Notation "' p <- m ;; k" := (bind m (fun p => k))
  (at level 61, p pattern, m at next level, right associativity) : go_scope.
Open Scope go_scope.

(** ** Package [result]: the functions of [result.go] *)

Module result.

Section Functions.
Context {W E : Type}.

Local Abbreviation M := (M W).
Local Abbreviation error := (error E).
Local Abbreviation Result := (Result W E).

(** [func Ok[A any](a A) data.Result[A]]: the closure returning
    [a, nil]. *)
Definition Ok {A} (a : A) : Result A :=
  fun w => Ret (a, None) w.

(** [func Error[A any](err error) data.Result[A]]: the closure returning
    the zero value of [A] and [err]. *)
Definition Error {A} `{ZeroValue A} (err : error) : Result A :=
  fun w => Ret (zero_value, err) w.

(** [func Zero[A any]() (a A, _ error)]: itself of the shape of a
    [Result], returning the zero value and nil. *)
Definition Zero {A} `{ZeroValue A} : Result A :=
  fun w => Ret (zero_value, None) w.

(** [if a, err := fa(); err != nil { return Error[B](err) } else
    { return Ok(f(a)) }] *)
Definition Map {A B} `{ZeroValue B}
    (fa : Result A) (f : A -> M B) : M (Result B) :=
  '(a, err) <- fa ;;
  match err with
  | Some _ => ret (Error err)
  | None => b <- f a ;; ret (Ok b)
  end.

(** [if _, err := fa(); err != nil { return Error[A](f(err)) }
    return fa] *)
Definition MapError {A} `{ZeroValue A}
    (fa : Result A) (f : error -> M error) : M (Result A) :=
  '(_, err) <- fa ;;
  match err with
  | Some _ => err' <- f err ;; ret (Error err')
  | None => ret fa
  end.

(** [fab()] first, [Error[B](err)] if it failed; then [fa()],
    [Error[B](err)] if it failed; then [Ok(ab(a))]. *)
Definition Ap {A B} `{ZeroValue B}
    (fab : Result (A -> M B)) (fa : Result A) : M (Result B) :=
  '(ab, err) <- fab ;;
  match err with
  | Some _ => ret (Error err)
  | None =>
      '(a, err) <- fa ;;
      match err with
      | Some _ => ret (Error err)
      | None => b <- ab a ;; ret (Ok b)
      end
  end.

(** [if a, err := ma(); err != nil { return Error[B](err) } else
    { return f(a) }] *)
Definition Chain {A B} `{ZeroValue B}
    (ma : Result A) (f : A -> M (Result B)) : M (Result B) :=
  '(a, err) <- ma ;;
  match err with
  | Some _ => ret (Error err)
  | None => f a
  end.

(** [fst] and [snd] return closures that ignore, or return, their
    argument. *)
Definition fst {A B} (a : A) : B -> M A := fun _ => ret a.

Definition snd {A B} (_ : A) : B -> M B := fun b => ret b.

(** [Chain(ma, func(a A) data.Result[A] { return Map(f(a),
    fst[A, B](a)) })] *)
Definition ChainFirst {A B} `{ZeroValue A}
    (ma : Result A) (f : A -> M (Result B)) : M (Result A) :=
  Chain ma (fun a => mb <- f a ;; Map mb (fst a)).

(** [if a, err := fa(); err != nil { return Error[B](f(err)) } else
    { return Ok(g(a)) }] *)
Definition Bimap {A B} `{ZeroValue B}
    (fa : Result A) (f : error -> M error) (g : A -> M B)
    : M (Result B) :=
  '(a, err) <- fa ;;
  match err with
  | Some _ => err' <- f err ;; ret (Error err')
  | None => b <- g a ;; ret (Ok b)
  end.

(** [Ap(Map(fa, fst[A, B]), fb)] *)
Definition ApFirst {A B} `{ZeroValue A}
    (fa : Result A) (fb : Result B) : M (Result A) :=
  fab <- Map fa (fun a => ret (fst (B:=B) a)) ;; Ap fab fb.

(** [Ap(Map(fa, snd[A, B]), fb)] *)
Definition ApSecond {A B} `{ZeroValue B}
    (fa : Result A) (fb : Result B) : M (Result B) :=
  fab <- Map fa (fun a => ret (snd (B:=B) a)) ;; Ap fab fb.

(** [if a, err := ma(); err != nil { return onError(err) } else
    { return onSuccess(a) }] *)
Definition Fold {A B}
    (ma : Result A) (onError : error -> M B) (onSuccess : A -> M B)
    : M B :=
  '(a, err) <- ma ;;
  match err with
  | Some _ => onError err
  | None => onSuccess a
  end.

(** [if a, err := ma(); err != nil { return onError(err) } else
    { return a }] *)
Definition GetOrElse {A}
    (ma : Result A) (onError : error -> M A) : M A :=
  '(a, err) <- ma ;;
  match err with
  | Some _ => onError err
  | None => ret a
  end.

(** [if _, err := ma(); err != nil { return onError(err) }
    return ma] *)
Definition OrElse {A}
    (ma : Result A) (onError : error -> M (Result A)) : M (Result A) :=
  '(_, err) <- ma ;;
  match err with
  | Some _ => onError err
  | None => ret ma
  end.

(** [Chain(ma, func(a A) data.Result[A] { if predicate(a) { return
    Ok(a) } else { return Error[A](onFalse(a)) } })] *)
Definition FilterOrElse {A} `{ZeroValue A}
    (ma : Result A) (predicate : Predicate W A) (onFalse : A -> M error)
    : M (Result A) :=
  Chain ma (fun a =>
    ok <- predicate a ;;
    if ok then ret (Ok a)
    else (err <- onFalse a ;; ret (Error err))).

(** As [Fold], the handlers returning nothing. *)
Definition Fork {A}
    (ma : Result A) (onError : error -> M unit) (onSuccess : A -> M unit)
    : M unit :=
  '(a, err) <- ma ;;
  match err with
  | Some _ => onError err
  | None => onSuccess a
  end.

(** [if ma == nil { return Error[A](onNil()) } return Ok( *ma)] *)
Definition FromNilable {A} `{ZeroValue A}
    (ma : Nilable A) (onNil : M error) : M (Result A) :=
  match ma with
  | None => err <- onNil ;; ret (Error err)
  | Some _ => a <- deref ma ;; ret (Ok a)
  end.

End Functions.

End result.

Import result.

(** ** Observing a computation *)

Section Observation.
Variables W E : Type.

(** What a caller reads off the pair a [Result] returns: the test
    [err != nil] every function of the package makes. *)
Inductive outcome (A : Type) : Type :=
| Success (a : A)
| Failure (e : E).

Definition classify {A} (p : A * error E) : outcome A :=
  match p with
  | (a, None) => Success a
  | (_, Some e) => Failure _ e
  end.

(** Invoking a computation. *)
Definition invoke {A} (r : Result W E A) : M W (outcome A) :=
  p <- r ;; ret (classify p).

(** Building a computation, then invoking what was built. *)
Definition built {A} (c : M W (Result W E A)) : M W (outcome A) :=
  r <- c ;; invoke r.

(** The value or the error a run ended with, the world left aside. *)
Definition answer {X} (r : run W X) : option X :=
  match r with
  | Ret x _ => Some x
  | Panic => None
  end.

(** A call that never panics. *)
Definition returns {X} (m : M W X) : Prop :=
  forall w, exists x w', m w = Ret x w'.

(** A pair is a success with a value or a failure with an error. *)
Definition succeeds {A} (p : A * error E) : Prop :=
  exists a, classify p = Success a.

Definition fails {A} (p : A * error E) : Prop :=
  exists e, classify p = Failure A e.

(** A computation whose invocation always returns, with exactly one of
    the two. *)
Definition total {A} (r : Result W E A) : Prop :=
  forall w, exists p w',
    r w = Ret p w' /\
    (succeeds p \/ fails p) /\ ~ (succeeds p /\ fails p).

(** Building returns, and what is built is total. *)
Definition builds_total {A} (c : M W (Result W E A)) : Prop :=
  forall w, exists r w', c w = Ret r w' /\ total r.

(** How often [Ap] invokes its argument side, given the pair its
    function side returned: once after a success, never after a
    failure. *)
Definition argument_runs {A} (p : A * error E) : nat :=
  match classify p with
  | Success _ => 1
  | Failure _ _ => 0
  end.

(** A function on errors that never returns the nil error. *)
Definition keeps_errors (f : error E -> M W (error E)) : Prop :=
  forall e w err' w', f (Some e) w = Ret err' w' -> err' <> None.

(** Invoking [r] again, right after an invocation, gives the same pair
    and changes nothing more. *)
Definition repeatable {A} (r : Result W E A) : Prop :=
  forall w p w', r w = Ret p w' -> r w' = Ret p w'.

(** A computation that no longer does anything: every invocation returns
    the same pair and leaves the world as it found it. *)
Definition settled {A} (r : Result W E A) : Prop :=
  exists p, forall w, r w = Ret p w.

(** A computation whose every invocation that returns is a success. *)
Definition always_succeeds {A} (r : Result W E A) : Prop :=
  forall w p w', r w = Ret p w' -> exists a, p = (a, None).
End Observation.

Arguments Success {E A} a.
Arguments Failure {E A} e.
Arguments classify {E A} p.
Arguments invoke {W E A} r _.
Arguments built {W E A} c _.
Arguments answer {W X} r.
Arguments returns {W X} m.
Arguments succeeds {E A} p.
Arguments fails {E A} p.
Arguments total {W E A} r.
Arguments builds_total {W E A} c.
Arguments repeatable {W E A} r.
Arguments argument_runs {E A} p.
Arguments keeps_errors {W E} f.
Arguments settled {W E A} r.
Arguments always_succeeds {W E A} r.

(** ** Counting invocations *)

(** Invocation counters kept in the world: [tick i] records one more
    invocation under the name [i], [count i] reads the number so far. *)
Record Probe (W : Type) : Type := {
  count : nat -> W -> nat;
  tick : nat -> W -> W;
  count_tick : forall i w, count i (tick i w) = S (count i w);
  count_tick_other : forall i j w, i <> j -> count j (tick i w) = count j w
}.

Section Counting.
Context {W : Type} (P : Probe W).

(** [m], with each of its invocations recorded under [i]. *)
Definition counted {X} (i : nat) (m : M W X) : M W X :=
  fun w => m (tick P i w).

(** A call that returns and leaves every counter as it was. *)
Definition quiet {X} (m : M W X) : Prop :=
  forall w, exists x w', m w = Ret x w' /\ forall i, count P i w' = count P i w.

(** The number of invocations recorded under [i] while [m] runs from
    [w]; nothing if [m] panics. *)
Definition invocations {X} (i : nat) (m : M W X) (w : W) : option nat :=
  match m w with
  | Ret _ w' => Some (count P i w' - count P i w)
  | Panic => None
  end.

(** A call that returns, having been recorded exactly [n] times under
    [i]. *)
Definition invoked {X} (i n : nat) (m : M W X) : Prop :=
  forall w, exists x w', m w = Ret x w' /\ count P i w' = n + count P i w.

(** A consumer ([Fold], [Fork]) handed [ma] and the two handlers, each
    recorded under its own name (0, 1 and 2): it invokes [ma] once, then
    the handler that matches the pair [ma] returned, once and with what
    that pair carries, the other handler never; it returns what the
    handler returned. *)
Definition dispatches_once {E A B}
    (consume : Result W E A -> (error E -> M W B) -> (A -> M W B) -> M W B)
    (ma : Result W E A) (onError : error E -> M W B) (onSuccess : A -> M W B)
    : Prop :=
  forall w, exists p w1 b w2,
    ma (tick P 0 w) = Ret p w1 /\
    consume (counted 0 ma)
            (fun err => counted 1 (onError err))
            (fun a => counted 2 (onSuccess a)) w = Ret b w2 /\
    count P 0 w2 = 1 + count P 0 w /\
    match p with
    | (_, Some e) =>
        onError (Some e) (tick P 1 w1) = Ret b w2 /\
        count P 1 w2 = 1 + count P 1 w /\ count P 2 w2 = count P 2 w
    | (a, None) =>
        onSuccess a (tick P 2 w1) = Ret b w2 /\
        count P 1 w2 = count P 1 w /\ count P 2 w2 = 1 + count P 2 w
    end.
End Counting.

(** ** The helpers of [result_test.go] and a counting world *)

Definition double (n : Z) : Z := (n * 2)%Z.

Definition isPositive (n : Z) : bool := (0 <? n)%Z.

Definition errFailed : string := "failed".

(** [fmt.Errorf("wrapped: %w", err)], an error told by its message. *)
Definition wrappedError (err : error string) : error string :=
  match err with
  | Some e => Some ("wrapped: " ++ e)%string
  | None => Some "wrapped: %!w(<nil>)"%string
  end.

(** A world that is nothing but its counters. *)
Definition tally : Type := nat -> nat.

Definition tally_tick (i : nat) (w : tally) : tally :=
  fun j => if Nat.eqb i j then S (w j) else w j.

Definition tally_probe : Probe tally.
Proof.
  refine {| count := fun i w => w i; tick := tally_tick |}.
  - intros i w. unfold tally_tick. now rewrite Nat.eqb_refl.
  - intros i j w Hij. unfold tally_tick.
    destruct (Nat.eqb_spec i j); [contradiction | reflexivity].
Defined.

Definition tally0 : tally := fun _ => 0.

(** A computation with an effect: it returns the number of times it ran
    before (counter 9) and records the run. *)
Definition nextInt : Result tally string Z :=
  fun w => Ret (Z.of_nat (w 9), None) (tally_tick 9 w).

(** [Ok(1)], its invocations recorded under 0. *)
Definition one : Result tally string Z := counted tally_probe 0 (Ok 1%Z).

(** [Ok(double)], its invocations recorded under 0. *)
Definition doubling : Result tally string (Z -> M tally Z) :=
  counted tally_probe 0 (Ok (fun n => ret (double n))).

(** A function on errors that drops the error. *)
Definition forget : error string -> M tally (error string) :=
  fun _ => ret None.

(** ** Proof steps *)

(** Unfold the functions of the package down to [bind]. *)
Ltac open_go :=
  unfold built, invoke, FilterOrElse, ChainFirst, ApFirst, ApSecond,
    Chain, Map, MapError, Bimap, Ap, OrElse, Fold, Fork, GetOrElse,
    FromNilable, deref, Ok, Error, Zero, fst, snd, counted,
    bind, ret, panic in *.

(** Split on the run the goal is waiting for. *)
Ltac split_run :=
  match goal with
  | |- context [match ?m ?w with Ret _ _ => _ | Panic => _ end] =>
      let R := fresh "R" in
      destruct (m w) as [[? [?|]] ?|] eqn:R
      || destruct (m w) as [? ?|] eqn:R
  end.

Ltac split_and :=
  match goal with |- _ /\ _ => split end.

Ltac run_go := open_go; cbn; repeat (split_run; cbn; try reflexivity).

(** ** The laws of [Map] and [Chain] *)

Section Laws.
Context {W E : Type}.
Local Abbreviation M := (M W).
Local Abbreviation Result := (Result W E).

(** C4. [Chain] satisfies the monad laws, two computations being
    equivalent when building and invoking them from the same world ends
    the same way (same outcome, same world): [Chain(Ok(a), f)] is
    [f(a)]; [Chain(ma, Ok)] is [ma]; [Chain(Chain(ma, f), g)] is
    [Chain(ma, a => Chain(f(a), g))]. *)
Theorem Chain_monad_laws
    (A B C : Type) `{ZeroValue A} `{ZeroValue B} `{ZeroValue C} :
  (forall (a : A) (f : A -> M (Result B)) w,
      Chain (Ok a) f w = f a w /\
      built (Chain (Ok a) f) w = built (f a) w) /\
  (forall (ma : Result A) w,
      built (Chain ma (fun a => ret (Ok a))) w = invoke ma w) /\
  (forall (ma : Result A) (f : A -> M (Result B)) (g : B -> M (Result C)) w,
      built (mb <- Chain ma f ;; Chain mb g) w =
      built (Chain ma (fun a => mb <- f a ;; Chain mb g)) w).
Proof.
  split; [|split].
  - intros a f w. split; reflexivity.
  - intros ma w. run_go.
  - intros ma f g w. run_go.
Qed.

(** C5. [Map] satisfies the functor laws, on the success and on the
    failure path: mapping [f] then [g] ends as mapping their composition
    does, and mapping the identity ends as invoking [fa] does. *)
Theorem Map_functor_laws
    (A B C : Type) `{ZeroValue A} `{ZeroValue B} `{ZeroValue C} :
  (forall (fa : Result A) (f : A -> M B) (g : B -> M C) w,
      built (fb <- Map fa f ;; Map fb g) w =
      built (Map fa (fun a => b <- f a ;; g b)) w) /\
  (forall (fa : Result A) w,
      built (Map fa (fun a => ret a)) w = invoke fa w).
Proof.
  split.
  - intros fa f g w. run_go.
  - intros fa w. run_go.
Qed.

End Laws.

(** ** Case by case: [Ap], [OrElse], [FromNilable], [FilterOrElse] *)

Section Cases.
Context {W E : Type}.
Local Abbreviation M := (M W).
Local Abbreviation error := (error E).
Local Abbreviation Result := (Result W E).

(** C2. [Ap] runs the function side first.  When [fab] fails with [e],
    [Ap] builds the computation failing with [e] and the world is the one
    [fab] left, whatever [fa] is: [fa] was not invoked.  When [fab]
    succeeds with [ab], [fa] is invoked in the world [fab] left; if it
    fails with [e] the product fails with [e], and if it succeeds with
    [a] the product succeeds with [ab(a)]. *)
Theorem Ap_function_side_first
    (A B : Type) `{ZeroValue B} (fab : Result (A -> M B)) (w : W) :
  (forall ab e w1,
      fab w = Ret (ab, Some e) w1 ->
      forall fa : Result A,
        Ap fab fa w = Ret (Error (Some e)) w1 /\
        built (Ap fab fa) w = Ret (Failure e) w1) /\
  (forall ab w1 (fa : Result A) a e w2,
      fab w = Ret (ab, None) w1 ->
      fa w1 = Ret (a, Some e) w2 ->
      built (Ap fab fa) w = Ret (Failure e) w2) /\
  (forall ab w1 (fa : Result A) a w2 b w3,
      fab w = Ret (ab, None) w1 ->
      fa w1 = Ret (a, None) w2 ->
      ab a w2 = Ret b w3 ->
      built (Ap fab fa) w = Ret (Success b) w3).
Proof.
  split; [|split].
  - intros ab e w1 Hfab fa. open_go. rewrite Hfab. split; reflexivity.
  - intros ab w1 fa a e w2 Hfab Hfa. open_go.
    rewrite Hfab. cbn. rewrite Hfa. reflexivity.
  - intros ab w1 fa a w2 b w3 Hfab Hfa Hab. open_go.
    rewrite Hfab. cbn. rewrite Hfa. cbn. rewrite Hab. reflexivity.
Qed.

(** C6. [OrElse(Ok(x), f)] returns [Ok(x)] itself, in an unchanged
    world and whatever [f] is, so [f] is not invoked; [OrElse(Error(e),
    f)] is [f(e)]. *)
Theorem OrElse_recovers (A : Type) `{ZeroValue A} :
  (forall (x : A) (f : error -> M (Result A)) w,
      OrElse (Ok x) f w = Ret (Ok x) w) /\
  (forall (e : E) (f : error -> M (Result A)) w,
      OrElse (Error (Some e)) f w = f (Some e) w).
Proof.
  split; intros; reflexivity.
Qed.

(** C7. On a nil reference [FromNilable] calls [onNil] and builds
    [Error] of what it returned, which fails with that error; on a
    reference to [a] it builds [Ok(a)], in an unchanged world and
    whatever [onNil] is, so [onNil] is not invoked. *)
Theorem FromNilable_cases (A : Type) `{ZeroValue A} :
  (forall (onNil : M error) err w w1,
      onNil w = Ret err w1 ->
      FromNilable (A:=A) None onNil w = Ret (Error err) w1 /\
      forall e, err = Some e ->
        built (FromNilable (A:=A) None onNil) w = Ret (Failure e) w1) /\
  (forall (a : A) (onNil : M error) w,
      FromNilable (Some a) onNil w = Ret (Ok a) w /\
      built (FromNilable (Some a) onNil) w = Ret (Success a) w).
Proof.
  split.
  - intros onNil err w w1 HonNil. open_go. rewrite HonNil.
    split; [reflexivity|]. intros e ->. reflexivity.
  - intros a onNil w. split; reflexivity.
Qed.

(** C8. [FilterOrElse] propagates the failure of [ma]; when [ma]
    succeeds with [v] it succeeds with [v] if the predicate holds of [v]
    and fails with [onFalse(v)] if not.  So [FilterOrElse(Ok(-1),
    isPositive, mkErr)] fails with [mkErr(-1)] and [FilterOrElse(Ok(5),
    isPositive, mkErr)] succeeds with [5]. *)
Theorem FilterOrElse_cases :
  (forall (A : Type) `(ZeroValue A)
      (ma : Result A) (p : Predicate W A) (onFalse : A -> M error) (w : W),
      (forall a e w1,
          ma w = Ret (a, Some e) w1 ->
          built (FilterOrElse ma p onFalse) w = Ret (Failure e) w1) /\
      (forall v w1 w2,
          ma w = Ret (v, None) w1 ->
          p v w1 = Ret true w2 ->
          built (FilterOrElse ma p onFalse) w = Ret (Success v) w2) /\
      (forall v w1 w2 e w3,
          ma w = Ret (v, None) w1 ->
          p v w1 = Ret false w2 ->
          onFalse v w2 = Ret (Some e) w3 ->
          built (FilterOrElse ma p onFalse) w = Ret (Failure e) w3)) /\
  (forall (mkErr : Z -> E) (w : W),
      built (FilterOrElse (Ok (-1)%Z) (fun n => ret (isPositive n))
               (fun n => ret (Some (mkErr n)))) w
      = Ret (Failure (mkErr (-1)%Z)) w /\
      built (FilterOrElse (Ok 5%Z) (fun n => ret (isPositive n))
               (fun n => ret (Some (mkErr n)))) w
      = Ret (Success 5%Z) w).
Proof.
  split.
  - intros A HA ma p onFalse w. split; [|split].
    + intros a e w1 Hma. open_go. rewrite Hma. reflexivity.
    + intros v w1 w2 Hma Hp. open_go.
      rewrite Hma. cbn. rewrite Hp. reflexivity.
    + intros v w1 w2 e w3 Hma Hp Hf. open_go.
      rewrite Hma. cbn. rewrite Hp. cbn. rewrite Hf. reflexivity.
  - intros mkErr w. split; reflexivity.
Qed.

End Cases.

(** The cases above, at the values of [result_test.go]: the failing
    function side keeps [nextInt] from running, and so on. *)

Lemma Ap_function_side_first_witness :
  Error (W:=tally) (A:=Z -> M tally Z) (Some errFailed) tally0
    = Ret (zero_value, Some errFailed) tally0 /\
  built (Ap (A:=Z) (B:=Z) (Error (Some errFailed)) nextInt) tally0
    = Ret (Failure errFailed) tally0.
Proof.
  split; [reflexivity|].
  apply (proj1 (Ap_function_side_first (A:=Z) (B:=Z)
                  (Error (Some errFailed)) tally0)
           zero_value errFailed tally0 eq_refl nextInt).
Defined.

Lemma FromNilable_cases_witness :
  ret (W:=tally) (Some errFailed) tally0 = Ret (Some errFailed) tally0 /\
  built (FromNilable (A:=Z) None (ret (Some errFailed))) tally0
    = Ret (Failure errFailed) tally0.
Proof.
  split; [reflexivity|].
  apply (proj2 (proj1 (FromNilable_cases (W:=tally) (E:=string) (A:=Z))
                  (ret (Some errFailed)) (Some errFailed) tally0 tally0
                  eq_refl)
           errFailed eq_refl).
Defined.

Lemma FilterOrElse_cases_witness :
  nextInt tally0 = Ret (0%Z, None) (tally_tick 9 tally0) /\
  built (FilterOrElse nextInt (fun n => ret (isPositive n))
           (fun _ => ret (Some errFailed))) tally0
    = Ret (Failure errFailed) (tally_tick 9 tally0).
Proof.
  split; [reflexivity|].
  apply (proj2 (proj2 (proj1 (FilterOrElse_cases (W:=tally) (E:=string))
                         Z _ nextInt (fun n => ret (isPositive n))
                         (fun _ => ret (Some errFailed)) tally0))
           0%Z (tally_tick 9 tally0) (tally_tick 9 tally0)
           errFailed (tally_tick 9 tally0));
    reflexivity.
Defined.

(** ** Totality *)

Section Totality.
Context {W E : Type}.
Local Abbreviation M := (M W).
Local Abbreviation error := (error E).
Local Abbreviation Result := (Result W E).

Lemma one_of_two (A : Type) (p : A * error) :
  (succeeds p \/ fails p) /\ ~ (succeeds p /\ fails p).
Proof.
  destruct p as [a [e|]]; unfold succeeds, fails; cbn; split.
  - right. now exists e.
  - intros [[a' Ha] _]. discriminate.
  - left. now exists a.
  - intros [_ [e He]]. discriminate.
Qed.

Lemma total_Ok (A : Type) (a : A) : total (Ok (W:=W) (E:=E) a).
Proof.
  intros w. exists (a, None), w. split; [reflexivity | apply one_of_two].
Qed.

Lemma total_Error (A : Type) `{ZeroValue A} (err : error) :
  total (Error (W:=W) (A:=A) err).
Proof.
  intros w. exists (zero_value, err), w.
  split; [reflexivity | apply one_of_two].
Qed.

Lemma total_Zero (A : Type) `{ZeroValue A} : total (Zero (W:=W) (E:=E) (A:=A)).
Proof.
  intros w. exists (zero_value, None), w.
  split; [reflexivity | apply one_of_two].
Qed.

(** Building by [ret] builds something total when the thing is. *)
Lemma builds_ret (A : Type) (r : Result A) : total r -> builds_total (ret r).
Proof.
  intros Hr w. exists r, w. split; [reflexivity | exact Hr].
Qed.

(** A call that returns, then a building step, is a building step. *)
Lemma builds_bind (X A : Type) (m : M X) (k : X -> M (Result A)) :
  returns m -> (forall x, builds_total (k x)) -> builds_total (x <- m ;; k x).
Proof.
  intros Hm Hk w. destruct (Hm w) as (x & w1 & Hx).
  destruct (Hk x w1) as (r & w2 & Hr & Ht).
  exists r, w2. unfold bind. rewrite Hx. split; assumption.
Qed.

(** Branching on the pair a total computation returned. *)
Lemma builds_match (A B : Type) (fa : Result A)
    (k : A * error -> M (Result B)) :
  total fa ->
  (forall w p w', fa w = Ret p w' -> builds_total (k p)) ->
  builds_total (p <- fa ;; k p).
Proof.
  intros Hfa Hk w. destruct (Hfa w) as (p & w1 & Hp & _).
  destruct (Hk w p w1 Hp w1) as (r & w2 & Hr & Ht).
  exists r, w2. unfold bind. rewrite Hp. split; assumption.
Qed.

Lemma returns_ret (X : Type) (x : X) : returns (ret (W:=W) x).
Proof. intros w. now exists x, w. Qed.

Lemma builds_Map (A B : Type) `{ZeroValue B} (fa : Result A) (f : A -> M B) :
  total fa -> (forall a, returns (f a)) -> builds_total (Map fa f).
Proof.
  intros Hfa Hf. unfold Map. apply builds_match; [exact Hfa|].
  intros _ [a [e|]] _ _.
  - apply builds_ret, total_Error.
  - apply builds_bind; [apply Hf|]. intros b. apply builds_ret, total_Ok.
Qed.

Lemma builds_MapError (A : Type) `{ZeroValue A}
    (fa : Result A) (f : error -> M error) :
  total fa -> (forall e, returns (f e)) -> builds_total (MapError fa f).
Proof.
  intros Hfa Hf. unfold MapError. apply builds_match; [exact Hfa|].
  intros _ [a [e|]] _ _.
  - apply builds_bind; [apply Hf|]. intros e'. apply builds_ret, total_Error.
  - apply builds_ret, Hfa.
Qed.

Lemma builds_Bimap (A B : Type) `{ZeroValue B}
    (fa : Result A) (f : error -> M error) (g : A -> M B) :
  total fa -> (forall e, returns (f e)) -> (forall a, returns (g a)) ->
  builds_total (Bimap fa f g).
Proof.
  intros Hfa Hf Hg. unfold Bimap. apply builds_match; [exact Hfa|].
  intros _ [a [e|]] _ _.
  - apply builds_bind; [apply Hf|]. intros e'. apply builds_ret, total_Error.
  - apply builds_bind; [apply Hg|]. intros b. apply builds_ret, total_Ok.
Qed.

Lemma builds_Ap (A B : Type) `{ZeroValue B}
    (fab : Result (A -> M B)) (fa : Result A) :
  total fab ->
  (forall w ab w', fab w = Ret (ab, None) w' -> forall a, returns (ab a)) ->
  total fa ->
  builds_total (Ap fab fa).
Proof.
  intros Hfab Hab Hfa. unfold Ap. apply builds_match; [exact Hfab|].
  intros w [ab [e|]] w' Hrun.
  - apply builds_ret, total_Error.
  - apply builds_match; [exact Hfa|].
    intros _ [a [e|]] _ _.
    + apply builds_ret, total_Error.
    + apply builds_bind; [apply (Hab w ab w' Hrun)|].
      intros b. apply builds_ret, total_Ok.
Qed.

Lemma builds_Chain (A B : Type) `{ZeroValue B}
    (ma : Result A) (f : A -> M (Result B)) :
  total ma -> (forall a, builds_total (f a)) -> builds_total (Chain ma f).
Proof.
  intros Hma Hf. unfold Chain. apply builds_match; [exact Hma|].
  intros _ [a [e|]] _ _.
  - apply builds_ret, total_Error.
  - apply Hf.
Qed.

(** Building something total, then building from it. *)
Lemma builds_then (A B : Type)
    (c : M (Result A)) (k : Result A -> M (Result B)) :
  builds_total c -> (forall r, total r -> builds_total (k r)) ->
  builds_total (r <- c ;; k r).
Proof.
  intros Hc Hk w. destruct (Hc w) as (r & w1 & Hr & Ht).
  destruct (Hk r Ht w1) as (r' & w2 & Hr' & Ht').
  exists r', w2. unfold bind. rewrite Hr. split; assumption.
Qed.

Lemma builds_ChainFirst (A B : Type) `{ZeroValue A}
    (ma : Result A) (f : A -> M (Result B)) :
  total ma -> (forall a, builds_total (f a)) -> builds_total (ChainFirst ma f).
Proof.
  intros Hma Hf. unfold ChainFirst. apply builds_Chain; [exact Hma|].
  intros a. apply builds_then; [apply Hf|].
  intros mb Hmb. apply builds_Map; [exact Hmb|].
  intros b. apply returns_ret.
Qed.

Lemma builds_FilterOrElse (A : Type) `{ZeroValue A}
    (ma : Result A) (p : Predicate W A) (onFalse : A -> M error) :
  total ma -> (forall a, returns (p a)) -> (forall a, returns (onFalse a)) ->
  builds_total (FilterOrElse ma p onFalse).
Proof.
  intros Hma Hp Hf. unfold FilterOrElse. apply builds_Chain; [exact Hma|].
  intros a. apply builds_bind; [apply Hp|].
  intros [|].
  - apply builds_ret, total_Ok.
  - apply builds_bind; [apply Hf|]. intros e. apply builds_ret, total_Error.
Qed.

Lemma builds_OrElse (A : Type)
    (ma : Result A) (onError : error -> M (Result A)) :
  total ma -> (forall e, builds_total (onError e)) ->
  builds_total (OrElse ma onError).
Proof.
  intros Hma Hf. unfold OrElse. apply builds_match; [exact Hma|].
  intros _ [a [e|]] _ _.
  - apply Hf.
  - apply builds_ret, Hma.
Qed.

Lemma builds_FromNilable (A : Type) `{ZeroValue A}
    (ma : Nilable A) (onNil : M error) :
  returns onNil -> builds_total (FromNilable ma onNil).
Proof.
  intros HonNil. destruct ma as [a|]; cbn.
  - apply builds_bind; [apply returns_ret|].
    intros a'. apply builds_ret, total_Ok.
  - apply builds_bind; [exact HonNil|].
    intros e. apply builds_ret, total_Error.
Qed.

Lemma builds_ApFirst (A B : Type) `{ZeroValue A}
    (fa : Result A) (fb : Result B) :
  total fa -> total fb -> builds_total (ApFirst fa fb).
Proof.
  intros Hfa Hfb w. destruct (Hfa w) as ([a [e|]] & w1 & Ha & _).
  - exists (Error (Some e)), w1. open_go. rewrite Ha.
    split; [reflexivity | apply total_Error].
  - destruct (Hfb w1) as ([b [e|]] & w2 & Hb & _).
    + exists (Error (Some e)), w2. open_go. rewrite Ha. cbn. rewrite Hb.
      split; [reflexivity | apply total_Error].
    + exists (Ok a), w2. open_go. rewrite Ha. cbn. rewrite Hb.
      split; [reflexivity | apply total_Ok].
Qed.

Lemma builds_ApSecond (A B : Type) `{ZeroValue B}
    (fa : Result A) (fb : Result B) :
  total fa -> total fb -> builds_total (ApSecond fa fb).
Proof.
  intros Hfa Hfb w. destruct (Hfa w) as ([a [e|]] & w1 & Ha & _).
  - exists (Error (Some e)), w1. open_go. rewrite Ha.
    split; [reflexivity | apply total_Error].
  - destruct (Hfb w1) as ([b [e|]] & w2 & Hb & _).
    + exists (Error (Some e)), w2. open_go. rewrite Ha. cbn. rewrite Hb.
      split; [reflexivity | apply total_Error].
    + exists (Ok b), w2. open_go. rewrite Ha. cbn. rewrite Hb.
      split; [reflexivity | apply total_Ok].
Qed.

(** C3. Invoking a computation the package made always returns, with
    exactly one of a success and a failure.  [Ok], [Error] and [Zero] are
    total; [FromNilable] builds a total computation from any reference,
    nil included, as soon as [onNil] returns; each combinator, given
    total computations and functions that return, builds a total
    computation. *)
Theorem results_are_total :
  (forall (A : Type) (a : A), total (Ok (W:=W) (E:=E) a)) /\
  (forall (A : Type) `(ZeroValue A) (err : error),
      total (Error (W:=W) (A:=A) err)) /\
  (forall (A : Type) `(ZeroValue A), total (Zero (W:=W) (E:=E) (A:=A))) /\
  (forall (A : Type) `(ZeroValue A) (ma : Nilable A) (onNil : M error),
      returns onNil -> builds_total (FromNilable ma onNil)) /\
  (forall (A B : Type) `(ZeroValue B) (fa : Result A) (f : A -> M B),
      total fa -> (forall a, returns (f a)) -> builds_total (Map fa f)) /\
  (forall (A : Type) `(ZeroValue A) (fa : Result A) (f : error -> M error),
      total fa -> (forall e, returns (f e)) ->
      builds_total (MapError fa f)) /\
  (forall (A B : Type) `(ZeroValue B)
      (fa : Result A) (f : error -> M error) (g : A -> M B),
      total fa -> (forall e, returns (f e)) -> (forall a, returns (g a)) ->
      builds_total (Bimap fa f g)) /\
  (forall (A B : Type) `(ZeroValue B)
      (fab : Result (A -> M B)) (fa : Result A),
      total fab ->
      (forall w ab w', fab w = Ret (ab, None) w' ->
                       forall a, returns (ab a)) ->
      total fa ->
      builds_total (Ap fab fa)) /\
  (forall (A B : Type) `(ZeroValue B)
      (ma : Result A) (f : A -> M (Result B)),
      total ma -> (forall a, builds_total (f a)) ->
      builds_total (Chain ma f)) /\
  (forall (A B : Type) `(ZeroValue A)
      (ma : Result A) (f : A -> M (Result B)),
      total ma -> (forall a, builds_total (f a)) ->
      builds_total (ChainFirst ma f)) /\
  (forall (A B : Type) `(ZeroValue A) (fa : Result A) (fb : Result B),
      total fa -> total fb -> builds_total (ApFirst fa fb)) /\
  (forall (A B : Type) `(ZeroValue B) (fa : Result A) (fb : Result B),
      total fa -> total fb -> builds_total (ApSecond fa fb)) /\
  (forall (A : Type) `(ZeroValue A)
      (ma : Result A) (p : Predicate W A) (onFalse : A -> M error),
      total ma -> (forall a, returns (p a)) ->
      (forall a, returns (onFalse a)) ->
      builds_total (FilterOrElse ma p onFalse)) /\
  (forall (A : Type) (ma : Result A) (onError : error -> M (Result A)),
      total ma -> (forall e, builds_total (onError e)) ->
      builds_total (OrElse ma onError)).
Proof.
  repeat split_and.
  - apply total_Ok.
  - intros; apply total_Error.
  - intros; apply total_Zero.
  - intros; now apply builds_FromNilable.
  - intros; now apply builds_Map.
  - intros; now apply builds_MapError.
  - intros; now apply builds_Bimap.
  - intros; now apply builds_Ap.
  - intros; now apply builds_Chain.
  - intros; now apply builds_ChainFirst.
  - intros; now apply builds_ApFirst.
  - intros; now apply builds_ApSecond.
  - intros; now apply builds_FilterOrElse.
  - intros; now apply builds_OrElse.
Qed.

End Totality.

(** ** How often the inputs are invoked *)

Section Invocations.
Context {W E : Type} (P : Probe W).
Local Abbreviation M := (M W).
Local Abbreviation error := (error E).
Local Abbreviation Result := (Result W E).

Lemma quiet_ret (X : Type) (x : X) : quiet P (ret x).
Proof. intros w. exists x, w. split; reflexivity. Qed.

Lemma quiet_bind (X Y : Type) (m : M X) (k : X -> M Y) :
  quiet P m ->
  (forall w x w', m w = Ret x w' -> quiet P (k x)) ->
  quiet P (x <- m ;; k x).
Proof.
  intros Hm Hk w. destruct (Hm w) as (x & w1 & Hx & Hc).
  destruct (Hk w x w1 Hx w1) as (y & w2 & Hy & Hc').
  exists y, w2. unfold bind. rewrite Hx. split; [exact Hy|].
  intros i. now rewrite Hc', Hc.
Qed.

Lemma invoked_counted (X : Type) (i : nat) (m : M X) :
  quiet P m -> invoked P i 1 (counted P i m).
Proof.
  intros Hm w. destruct (Hm (tick P i w)) as (x & w1 & Hx & Hc).
  exists x, w1. split; [exact Hx|]. now rewrite Hc, count_tick.
Qed.

Lemma invoked_bind (X Y : Type) (i n : nat) (m : M X) (k : X -> M Y) :
  invoked P i n m ->
  (forall w x w', m w = Ret x w' -> quiet P (k x)) ->
  invoked P i n (x <- m ;; k x).
Proof.
  intros Hm Hk w. destruct (Hm w) as (x & w1 & Hx & Hc).
  destruct (Hk w x w1 Hx w1) as (y & w2 & Hy & Hc').
  exists y, w2. unfold bind. rewrite Hx. split; [exact Hy|].
  now rewrite Hc', Hc.
Qed.

Lemma quiet_Map (A B : Type) `{ZeroValue B} (fa : Result A) (f : A -> M B) :
  quiet P fa -> (forall a, quiet P (f a)) -> quiet P (Map fa f).
Proof.
  intros Hfa Hf. unfold Map. apply quiet_bind; [exact Hfa|].
  intros _ [a [e|]] _ _.
  - apply quiet_ret.
  - apply quiet_bind; [apply Hf|]. intros. apply quiet_ret.
Qed.

Lemma once_Map (A B : Type) `{ZeroValue B} (i : nat)
    (fa : Result A) (f : A -> M B) :
  quiet P fa -> (forall a, quiet P (f a)) ->
  invoked P i 1 (Map (counted P i fa) f).
Proof.
  intros Hfa Hf. unfold Map.
  apply invoked_bind; [now apply invoked_counted|].
  intros _ [a [e|]] _ _.
  - apply quiet_ret.
  - apply quiet_bind; [apply Hf|]. intros. apply quiet_ret.
Qed.

Lemma once_MapError (A : Type) `{ZeroValue A} (i : nat)
    (fa : Result A) (f : error -> M error) :
  quiet P fa -> (forall e, quiet P (f e)) ->
  invoked P i 1 (MapError (counted P i fa) f).
Proof.
  intros Hfa Hf. unfold MapError.
  apply invoked_bind; [now apply invoked_counted|].
  intros _ [a [e|]] _ _.
  - apply quiet_bind; [apply Hf|]. intros. apply quiet_ret.
  - apply quiet_ret.
Qed.

Lemma once_Bimap (A B : Type) `{ZeroValue B} (i : nat)
    (fa : Result A) (f : error -> M error) (g : A -> M B) :
  quiet P fa -> (forall e, quiet P (f e)) -> (forall a, quiet P (g a)) ->
  invoked P i 1 (Bimap (counted P i fa) f g).
Proof.
  intros Hfa Hf Hg. unfold Bimap.
  apply invoked_bind; [now apply invoked_counted|].
  intros _ [a [e|]] _ _.
  - apply quiet_bind; [apply Hf|]. intros. apply quiet_ret.
  - apply quiet_bind; [apply Hg|]. intros. apply quiet_ret.
Qed.

Lemma once_Chain (A B : Type) `{ZeroValue B} (i : nat)
    (ma : Result A) (f : A -> M (Result B)) :
  quiet P ma -> (forall a, quiet P (f a)) ->
  invoked P i 1 (Chain (counted P i ma) f).
Proof.
  intros Hma Hf. unfold Chain.
  apply invoked_bind; [now apply invoked_counted|].
  intros _ [a [e|]] _ _.
  - apply quiet_ret.
  - apply Hf.
Qed.

Lemma once_ChainFirst (A B : Type) `{ZeroValue A} (i : nat)
    (ma : Result A) (f : A -> M (Result B)) :
  quiet P ma -> (forall a, quiet P (f a)) ->
  (forall a w mb w', f a w = Ret mb w' -> quiet P mb) ->
  invoked P i 1 (ChainFirst (counted P i ma) f).
Proof.
  intros Hma Hf Hmb. unfold ChainFirst.
  apply once_Chain; [exact Hma|].
  intros a. apply quiet_bind; [apply Hf|].
  intros w mb w' Hrun. apply quiet_Map; [apply (Hmb a w mb w' Hrun)|].
  intros b. apply quiet_ret.
Qed.

Lemma once_FilterOrElse (A : Type) `{ZeroValue A} (i : nat)
    (ma : Result A) (p : Predicate W A) (onFalse : A -> M error) :
  quiet P ma -> (forall a, quiet P (p a)) -> (forall a, quiet P (onFalse a)) ->
  invoked P i 1 (FilterOrElse (counted P i ma) p onFalse).
Proof.
  intros Hma Hp Hf. unfold FilterOrElse.
  apply once_Chain; [exact Hma|].
  intros a. apply quiet_bind; [apply Hp|].
  intros _ [|] _ _.
  - apply quiet_ret.
  - apply quiet_bind; [apply Hf|]. intros. apply quiet_ret.
Qed.

Lemma once_OrElse (A : Type) (i : nat)
    (ma : Result A) (onError : error -> M (Result A)) :
  quiet P ma -> (forall e, quiet P (onError e)) ->
  invoked P i 1 (OrElse (counted P i ma) onError).
Proof.
  intros Hma Hf. unfold OrElse.
  apply invoked_bind; [now apply invoked_counted|].
  intros _ [a [e|]] _ _.
  - apply Hf.
  - apply quiet_ret.
Qed.

Lemma once_Ap_function (A B : Type) `{ZeroValue B} (i : nat)
    (fab : Result (A -> M B)) (fa : Result A) :
  quiet P fab ->
  (forall w ab w', fab w = Ret (ab, None) w' -> forall a, quiet P (ab a)) ->
  quiet P fa ->
  invoked P i 1 (Ap (counted P i fab) fa).
Proof.
  intros Hfab Hab Hfa. unfold Ap.
  apply invoked_bind; [now apply invoked_counted|].
  intros w [ab [e|]] w' Hrun.
  - apply quiet_ret.
  - apply quiet_bind; [exact Hfa|].
    intros _ [a [e|]] _ _.
    + apply quiet_ret.
    + apply quiet_bind; [apply (Hab _ _ _ Hrun)|]. intros. apply quiet_ret.
Qed.

Lemma once_Ap_argument (A B : Type) `{ZeroValue B} (i : nat)
    (fab : Result (A -> M B)) (fa : Result A) :
  quiet P fab ->
  (forall w ab w', fab w = Ret (ab, None) w' -> forall a, quiet P (ab a)) ->
  quiet P fa ->
  forall w, exists p w1 r w',
    fab w = Ret p w1 /\
    Ap fab (counted P i fa) w = Ret r w' /\
    count P i w' = argument_runs p + count P i w.
Proof.
  intros Hfab Hab Hfa w.
  destruct (Hfab w) as ([ab [e|]] & w1 & Hrun & Hc).
  - exists (ab, Some e), w1, (Error (Some e)), w1.
    unfold Ap, bind. rewrite Hrun. repeat split. apply Hc.
  - destruct (invoked_counted i Hfa w1) as ([a [e|]] & w2 & Hrun2 & Hc2).
    + exists (ab, None), w1, (Error (Some e)), w2.
      unfold Ap, bind. rewrite Hrun, Hrun2. repeat split.
      rewrite Hc2, Hc. reflexivity.
    + destruct (Hab _ _ _ Hrun a w2) as (b & w3 & Hrun3 & Hc3).
      exists (ab, None), w1, (Ok b), w3.
      unfold Ap, bind. rewrite Hrun, Hrun2, Hrun3. repeat split.
      rewrite Hc3, Hc2, Hc. reflexivity.
Qed.

End Invocations.

Section Eagerness.
Context {W E : Type} (P : Probe W).
Local Abbreviation M := (M W).
Local Abbreviation error := (error E).
Local Abbreviation Result := (Result W E).

(** C1, as the code has it.  Building is eager: [Map], [MapError],
    [Bimap], [Chain], [ChainFirst], [FilterOrElse] and [OrElse] invoke
    their input computation exactly once while they build; [Ap] invokes
    its function side exactly once, and its argument side once when the
    function side succeeded and not at all when it failed.  (The inputs,
    and the functions passed along, return and leave the counters
    alone, so that only the invocations the package makes are
    counted.) *)
Theorem building_invokes_once (i : nat) :
  (forall (A B : Type) `(ZeroValue B) (fa : Result A) (f : A -> M B),
      quiet P fa -> (forall a, quiet P (f a)) ->
      invoked P i 1 (Map (counted P i fa) f)) /\
  (forall (A : Type) `(ZeroValue A) (fa : Result A) (f : error -> M error),
      quiet P fa -> (forall e, quiet P (f e)) ->
      invoked P i 1 (MapError (counted P i fa) f)) /\
  (forall (A B : Type) `(ZeroValue B)
      (fa : Result A) (f : error -> M error) (g : A -> M B),
      quiet P fa -> (forall e, quiet P (f e)) -> (forall a, quiet P (g a)) ->
      invoked P i 1 (Bimap (counted P i fa) f g)) /\
  (forall (A B : Type) `(ZeroValue B)
      (fab : Result (A -> M B)) (fa : Result A),
      quiet P fab ->
      (forall w ab w', fab w = Ret (ab, None) w' ->
                       forall a, quiet P (ab a)) ->
      quiet P fa ->
      invoked P i 1 (Ap (counted P i fab) fa) /\
      forall w, exists p w1 r w',
        fab w = Ret p w1 /\
        Ap fab (counted P i fa) w = Ret r w' /\
        count P i w' = argument_runs p + count P i w) /\
  (forall (A B : Type) `(ZeroValue B)
      (ma : Result A) (f : A -> M (Result B)),
      quiet P ma -> (forall a, quiet P (f a)) ->
      invoked P i 1 (Chain (counted P i ma) f)) /\
  (forall (A B : Type) `(ZeroValue A)
      (ma : Result A) (f : A -> M (Result B)),
      quiet P ma -> (forall a, quiet P (f a)) ->
      (forall a w mb w', f a w = Ret mb w' -> quiet P mb) ->
      invoked P i 1 (ChainFirst (counted P i ma) f)) /\
  (forall (A : Type) `(ZeroValue A)
      (ma : Result A) (p : Predicate W A) (onFalse : A -> M error),
      quiet P ma -> (forall a, quiet P (p a)) ->
      (forall a, quiet P (onFalse a)) ->
      invoked P i 1 (FilterOrElse (counted P i ma) p onFalse)) /\
  (forall (A : Type) (ma : Result A) (onError : error -> M (Result A)),
      quiet P ma -> (forall e, quiet P (onError e)) ->
      invoked P i 1 (OrElse (counted P i ma) onError)).
Proof.
  repeat split_and.
  - intros; now apply once_Map.
  - intros; now apply once_MapError.
  - intros; now apply once_Bimap.
  - intros; split; [now apply once_Ap_function | now apply once_Ap_argument].
  - intros; now apply once_Chain.
  - intros; now apply once_ChainFirst.
  - intros; now apply once_FilterOrElse.
  - intros; now apply once_OrElse.
Qed.

(** The counters after [ma], recorded under 0, and then a handler
    recorded under [j], both quiet in themselves. *)
Lemma counts_after_dispatch (w w1 w2 : W) (j : nat) :
  j <> 0 ->
  (forall i, count P i w1 = count P i (tick P 0 w)) ->
  (forall i, count P i w2 = count P i (tick P j w1)) ->
  count P 0 w2 = 1 + count P 0 w /\
  count P j w2 = 1 + count P j w /\
  forall k, k <> 0 -> k <> j -> count P k w2 = count P k w.
Proof.
  intros Hj H1 H2.
  assert (Hj' : 0 <> j) by (intros H0; now apply Hj).
  repeat split_and.
  - rewrite H2, (@count_tick_other _ P j 0 w1 Hj), H1, count_tick.
    reflexivity.
  - rewrite H2, count_tick, H1, (@count_tick_other _ P 0 j w Hj').
    reflexivity.
  - intros k Hk0 Hkj.
    assert (Hk0' : 0 <> k) by (intros H0; now apply Hk0).
    assert (Hkj' : j <> k) by (intros H0; now apply Hkj).
    rewrite H2, (@count_tick_other _ P j k w1 Hkj'), H1,
      (@count_tick_other _ P 0 k w Hk0').
    reflexivity.
Qed.

Lemma dispatch_once (A B : Type)
    (ma : Result A) (onError : error -> M B) (onSuccess : A -> M B) :
  quiet P ma -> (forall err, quiet P (onError err)) ->
  (forall a, quiet P (onSuccess a)) ->
  dispatches_once P (Fold (B:=B)) ma onError onSuccess.
Proof.
  intros Hma He Hs w.
  destruct (Hma (tick P 0 w)) as ([a [e|]] & w1 & Hrun & Hc).
  - destruct (He (Some e) (tick P 1 w1)) as (b & w2 & Hrun2 & Hc2).
    destruct (@counts_after_dispatch w w1 w2 1) as (C0 & C1 & C2);
      [discriminate | exact Hc | exact Hc2 |].
    exists (a, Some e), w1, b, w2. repeat split_and; try assumption.
    + unfold Fold, counted, bind. rewrite Hrun. exact Hrun2.
    + apply C2; discriminate.
  - destruct (Hs a (tick P 2 w1)) as (b & w2 & Hrun2 & Hc2).
    destruct (@counts_after_dispatch w w1 w2 2) as (C0 & C1 & C2);
      [discriminate | exact Hc | exact Hc2 |].
    exists (a, None), w1, b, w2. repeat split_and; try assumption.
    + unfold Fold, counted, bind. rewrite Hrun. exact Hrun2.
    + apply C2; discriminate.
Qed.

(** C9. [Fold] and [Fork] invoke [ma] once and call exactly one
    handler, once: [onError] with the error when [ma] failed,
    [onSuccess] with the value when it succeeded; [Fold] returns what
    that handler returned. *)
Theorem Fold_Fork_dispatch :
  (forall (A B : Type)
      (ma : Result A) (onError : error -> M B) (onSuccess : A -> M B),
      quiet P ma -> (forall err, quiet P (onError err)) ->
      (forall a, quiet P (onSuccess a)) ->
      dispatches_once P (Fold (B:=B)) ma onError onSuccess) /\
  (forall (A : Type)
      (ma : Result A) (onError : error -> M unit) (onSuccess : A -> M unit),
      quiet P ma -> (forall err, quiet P (onError err)) ->
      (forall a, quiet P (onSuccess a)) ->
      dispatches_once P (Fork (A:=A)) ma onError onSuccess).
Proof.
  split.
  - intros. now apply dispatch_once.
  - intros A ma onError onSuccess Hma He Hs.
    change (dispatches_once P (Fold (B:=unit)) ma onError onSuccess).
    now apply dispatch_once.
Qed.

End Eagerness.

(** ** [Bimap] against [Map] after [MapError] *)

Section Decomposition.
Context {W E : Type}.
Local Abbreviation M := (M W).
Local Abbreviation error := (error E).
Local Abbreviation Result := (Result W E).

(** C10, as the code has it.  [Bimap(fa, f, g)] fails with [f(e)] when
    [fa] fails with [e] and [f(e)] is an error, and succeeds with [g(a)]
    when [fa] succeeds with [a].  It ends as [Map(MapError(fa, f), g)]
    does when invoking [fa] a second time repeats the first ([MapError]
    hands a succeeding [fa] on to [Map], which invokes it again) and [f]
    never returns the nil error. *)
Theorem Bimap_decomposes
    (A B : Type) `{ZeroValue A} `{ZeroValue B}
    (fa : Result A) (f : error -> M error) (g : A -> M B) :
  (forall w a e w1 e' w2,
      fa w = Ret (a, Some e) w1 ->
      f (Some e) w1 = Ret (Some e') w2 ->
      built (Bimap fa f g) w = Ret (Failure e') w2) /\
  (forall w a w1 b w2,
      fa w = Ret (a, None) w1 ->
      g a w1 = Ret b w2 ->
      built (Bimap fa f g) w = Ret (Success b) w2) /\
  (repeatable fa -> keeps_errors f ->
   forall w,
     built (Bimap fa f g) w = built (fb <- MapError fa f ;; Map fb g) w).
Proof.
  split; [|split].
  - intros w a e w1 e' w2 Hfa Hf. open_go. rewrite Hfa. cbn.
    rewrite Hf. reflexivity.
  - intros w a w1 b w2 Hfa Hg. open_go. rewrite Hfa. cbn.
    rewrite Hg. reflexivity.
  - intros Hrep Hkeep w. open_go.
    destruct (fa w) as [[a [e|]] w1|] eqn:Hfa; cbn; [| |reflexivity].
    + destruct (f (Some e) w1) as [err' w2|] eqn:Hf; cbn; [|reflexivity].
      destruct err' as [e'|]; [reflexivity|].
      now destruct (Hkeep _ _ _ _ Hf).
    + rewrite (Hrep _ _ _ Hfa). cbn. reflexivity.
Qed.

End Decomposition.

(** ** At concrete values *)

(** C1, as stated, fails.  Were building lazy, no invocation of the
    input would be recorded while building; for each of the eight, built
    from [one] (for [Ap], from [doubling]) in a world where nothing has
    run yet, one invocation is recorded, and nothing has been done with
    what was built. *)
Lemma building_is_not_lazy :
  invocations tally_probe 0
    (Map one (fun n => ret (double n))) tally0 = Some 1 /\
  invocations tally_probe 0
    (MapError one (fun err => ret err)) tally0 = Some 1 /\
  invocations tally_probe 0
    (Bimap one (fun err => ret err) (fun n => ret (double n))) tally0
    = Some 1 /\
  invocations tally_probe 0 (Ap doubling (Ok 1%Z)) tally0 = Some 1 /\
  invocations tally_probe 0
    (Chain one (fun n => ret (Ok (E:=string) n))) tally0 = Some 1 /\
  invocations tally_probe 0
    (ChainFirst one (fun n => ret (Ok (E:=string) n))) tally0 = Some 1 /\
  invocations tally_probe 0
    (FilterOrElse one (fun n => ret (isPositive n))
       (fun _ => ret (Some errFailed))) tally0 = Some 1 /\
  invocations tally_probe 0
    (OrElse one (fun _ => ret (Ok 0%Z))) tally0 = Some 1.
Proof.
  repeat split_and; reflexivity.
Qed.

Lemma building_invokes_once_witness :
  quiet tally_probe (Ok (W:=tally) (E:=string) 1%Z) /\
  exists r w',
    Map one (fun n => ret (double n)) tally0 = Ret r w' /\
    count tally_probe 0 w' = 1 + count tally_probe 0 tally0.
Proof.
  assert (Hq : quiet tally_probe (Ok (W:=tally) (E:=string) 1%Z)).
  { intros w. exists (1%Z, None), w. split; reflexivity. }
  split; [exact Hq|].
  apply (proj1 (building_invokes_once (E:=string) tally_probe 0)
           Z Z _ (Ok 1%Z) (fun n => ret (double n)) Hq).
  intros n w. exists (double n), w. split; reflexivity.
Defined.

Lemma results_are_total_witness :
  returns (ret (W:=tally) (Some errFailed)) /\
  builds_total (FromNilable (A:=Z) None (ret (W:=tally) (Some errFailed))).
Proof.
  assert (Hr : returns (ret (W:=tally) (Some errFailed))).
  { intros w. exists (Some errFailed), w. reflexivity. }
  split; [exact Hr|].
  apply (proj1 (proj2 (proj2 (proj2 (results_are_total (W:=tally) (E:=string)))))
           Z _ None (ret (Some errFailed)) Hr).
Defined.

Lemma Fold_Fork_dispatch_witness :
  quiet tally_probe (Ok (W:=tally) (E:=string) 42%Z) /\
  dispatches_once tally_probe (Fold (B:=Z))
    (Ok 42%Z) (fun _ : error string => ret 0%Z) (fun n => ret (double n)).
Proof.
  assert (Hq : quiet tally_probe (Ok (W:=tally) (E:=string) 42%Z)).
  { intros w. exists (42%Z, None), w. split; reflexivity. }
  split; [exact Hq|].
  apply (proj1 (Fold_Fork_dispatch (E:=string) tally_probe)
           Z Z (Ok 42%Z) (fun _ => ret 0%Z) (fun n => ret (double n)) Hq).
  - intros err w. exists 0%Z, w. split; reflexivity.
  - intros n w. exists (double n), w. split; reflexivity.
Defined.

(** C10, as stated, fails.  [nextInt] succeeds with 0 and then with 1:
    [Bimap] invokes it once, [Map] after [MapError] twice.  And where [f]
    turns the error into nil, [Bimap] builds [Error(nil)], which succeeds
    with the zero value, while [Map] goes on to apply [g] to it. *)
Lemma Bimap_is_not_Map_after_MapError :
  (answer (built (Bimap nextInt (fun err => ret err) (fun n => ret n)) tally0)
     = Some (Success 0%Z) /\
   answer (built (fb <- MapError nextInt (fun err => ret err) ;;
                  Map fb (fun n => ret n)) tally0)
     = Some (Success 1%Z)) /\
  (answer (built (Bimap (A:=Z) (Error (Some errFailed)) forget
                    (fun n => ret (n + 1)%Z)) tally0)
     = Some (Success 0%Z) /\
   answer (built (fb <- MapError (A:=Z) (Error (Some errFailed)) forget ;;
                  Map fb (fun n => ret (n + 1)%Z)) tally0)
     = Some (Success 1%Z)).
Proof.
  repeat split_and; reflexivity.
Qed.

Lemma Bimap_decomposes_witness :
  repeatable (Error (W:=tally) (A:=Z) (Some errFailed)) /\
  keeps_errors (W:=tally) (fun err => ret (wrappedError err)) /\
  built (Bimap (Error (Some errFailed))
           (fun err => ret (wrappedError err))
           (fun n => ret (isPositive n))) tally0
  = built (fb <- MapError (A:=Z) (Error (Some errFailed))
                   (fun err => ret (wrappedError err)) ;;
           Map fb (fun n => ret (isPositive n))) tally0.
Proof.
  assert (Hrep : repeatable (Error (W:=tally) (A:=Z) (Some errFailed))).
  { intros w p w' Hrun. injection Hrun as <- <-. reflexivity. }
  assert (Hkeep : keeps_errors (W:=tally) (fun err => ret (wrappedError err))).
  { intros e w err' w' Hrun. injection Hrun as <- _. discriminate. }
  split; [exact Hrep|]. split; [exact Hkeep|].
  apply (proj2 (proj2 (Bimap_decomposes (A:=Z) (B:=bool)
                         (Error (Some errFailed))
                         (fun err => ret (wrappedError err))
                         (fun n => ret (isPositive n))))
           Hrep Hkeep tally0).
Defined.

(** ** The other functions of the package, case by case *)

Section MoreCases.
Context {W E : Type}.
Local Abbreviation M := (M W).
Local Abbreviation error := (error E).
Local Abbreviation Result := (Result W E).

(** X1. [ApFirst(fa, fb)] invokes [fa], then [fb] in the world [fa]
    left.  If [fa] fails with [e] it builds [Error(e)] and [fb] is not
    invoked; if [fb] fails with [e] it builds [Error(e)]; if both
    succeed it builds [Ok] of the value of [fa]. *)
Theorem ApFirst_cases
    (A B : Type) `{ZeroValue A} (fa : Result A) (w : W) :
  (forall a e w1 (fb : Result B),
      fa w = Ret (a, Some e) w1 ->
      ApFirst fa fb w = Ret (Error (Some e)) w1) /\
  (forall a w1 (fb : Result B) b e w2,
      fa w = Ret (a, None) w1 ->
      fb w1 = Ret (b, Some e) w2 ->
      ApFirst fa fb w = Ret (Error (Some e)) w2) /\
  (forall a w1 (fb : Result B) b w2,
      fa w = Ret (a, None) w1 ->
      fb w1 = Ret (b, None) w2 ->
      ApFirst fa fb w = Ret (Ok a) w2).
Proof.
  repeat split_and.
  - intros a e w1 fb Hfa. open_go. rewrite Hfa. reflexivity.
  - intros a w1 fb b e w2 Hfa Hfb. open_go.
    rewrite Hfa. cbn. rewrite Hfb. reflexivity.
  - intros a w1 fb b w2 Hfa Hfb. open_go.
    rewrite Hfa. cbn. rewrite Hfb. reflexivity.
Qed.

(** X2. [ApSecond(fa, fb)] invokes [fa], then [fb] in the world [fa]
    left.  If [fa] fails with [e] it builds [Error(e)] and [fb] is not
    invoked; if [fb] fails with [e] it builds [Error(e)]; if both
    succeed it builds [Ok] of the value of [fb]. *)
Theorem ApSecond_cases
    (A B : Type) `{ZeroValue B} (fa : Result A) (w : W) :
  (forall a e w1 (fb : Result B),
      fa w = Ret (a, Some e) w1 ->
      ApSecond fa fb w = Ret (Error (Some e)) w1) /\
  (forall a w1 (fb : Result B) b e w2,
      fa w = Ret (a, None) w1 ->
      fb w1 = Ret (b, Some e) w2 ->
      ApSecond fa fb w = Ret (Error (Some e)) w2) /\
  (forall a w1 (fb : Result B) b w2,
      fa w = Ret (a, None) w1 ->
      fb w1 = Ret (b, None) w2 ->
      ApSecond fa fb w = Ret (Ok b) w2).
Proof.
  repeat split_and.
  - intros a e w1 fb Hfa. open_go. rewrite Hfa. reflexivity.
  - intros a w1 fb b e w2 Hfa Hfb. open_go.
    rewrite Hfa. cbn. rewrite Hfb. reflexivity.
  - intros a w1 fb b w2 Hfa Hfb. open_go.
    rewrite Hfa. cbn. rewrite Hfb. reflexivity.
Qed.

(** X3. [MapError(fa, f)] on a succeeding [fa] returns [fa] itself, in
    the world [fa] left and whatever [f] is: [f] is not called, and it
    is [fa], not its value, that is handed on.  On an [fa] failing with
    [e] it calls [f] on [e] and builds [Error] of what [f] returned. *)
Theorem MapError_cases
    (A : Type) `{ZeroValue A} (fa : Result A) (w : W) :
  (forall a w1 (f : error -> M error),
      fa w = Ret (a, None) w1 ->
      MapError fa f w = Ret fa w1) /\
  (forall a e w1 (f : error -> M error) err' w2,
      fa w = Ret (a, Some e) w1 ->
      f (Some e) w1 = Ret err' w2 ->
      MapError fa f w = Ret (Error err') w2).
Proof.
  split.
  - intros a w1 f Hfa. open_go. rewrite Hfa. reflexivity.
  - intros a e w1 f err' w2 Hfa Hf. open_go.
    rewrite Hfa. cbn. rewrite Hf. reflexivity.
Qed.

(** X4. [ChainFirst(ma, f)]: if [ma] fails with [e] it builds
    [Error(e)] and [f] is not called; otherwise it calls [f] on the
    value [a] of [ma] and invokes what [f] returned, building [Error(e)]
    if that fails with [e] and [Ok(a)], the value of [ma], if it
    succeeds. *)
Theorem ChainFirst_cases
    (A B : Type) `{ZeroValue A} (ma : Result A) (w : W) :
  (forall a e w1 (f : A -> M (Result B)),
      ma w = Ret (a, Some e) w1 ->
      ChainFirst ma f w = Ret (Error (Some e)) w1) /\
  (forall a w1 (f : A -> M (Result B)) mb w2 b e w3,
      ma w = Ret (a, None) w1 ->
      f a w1 = Ret mb w2 ->
      mb w2 = Ret (b, Some e) w3 ->
      ChainFirst ma f w = Ret (Error (Some e)) w3) /\
  (forall a w1 (f : A -> M (Result B)) mb w2 b w3,
      ma w = Ret (a, None) w1 ->
      f a w1 = Ret mb w2 ->
      mb w2 = Ret (b, None) w3 ->
      ChainFirst ma f w = Ret (Ok a) w3).
Proof.
  repeat split_and.
  - intros a e w1 f Hma. open_go. rewrite Hma. reflexivity.
  - intros a w1 f mb w2 b e w3 Hma Hf Hmb. open_go.
    rewrite Hma. cbn. rewrite Hf. cbn. rewrite Hmb. reflexivity.
  - intros a w1 f mb w2 b w3 Hma Hf Hmb. open_go.
    rewrite Hma. cbn. rewrite Hf. cbn. rewrite Hmb. reflexivity.
Qed.

(** X5. [GetOrElse(ma, onError)] returns the value of a succeeding [ma]
    in the world [ma] left, whatever [onError] is, and [onError(err)]
    when [ma] failed; it is [Fold] with a success handler that returns
    its argument. *)
Theorem GetOrElse_cases
    (A : Type) (ma : Result A) (w : W) :
  (forall a w1 (onError : error -> M A),
      ma w = Ret (a, None) w1 ->
      GetOrElse ma onError w = Ret a w1) /\
  (forall a e w1 (onError : error -> M A),
      ma w = Ret (a, Some e) w1 ->
      GetOrElse ma onError w = onError (Some e) w1) /\
  (forall onError : error -> M A,
      GetOrElse ma onError w = Fold ma onError (fun a => ret a) w).
Proof.
  repeat split_and.
  - intros a w1 onError Hma. open_go. rewrite Hma. reflexivity.
  - intros a e w1 onError Hma. open_go. rewrite Hma. reflexivity.
  - intros onError. reflexivity.
Qed.

(** X6. [OrElse(ma, onError)] on a succeeding [ma] returns [ma] itself,
    in the world [ma] left and whatever [onError] is; on an [ma] failing
    with [e] it is [onError(e)], run in the world [ma] left. *)
Theorem OrElse_cases
    (A : Type) (ma : Result A) (w : W) :
  (forall a w1 (onError : error -> M (Result A)),
      ma w = Ret (a, None) w1 ->
      OrElse ma onError w = Ret ma w1) /\
  (forall a e w1 (onError : error -> M (Result A)),
      ma w = Ret (a, Some e) w1 ->
      OrElse ma onError w = onError (Some e) w1).
Proof.
  split.
  - intros a w1 onError Hma. open_go. rewrite Hma. reflexivity.
  - intros a e w1 onError Hma. open_go. rewrite Hma. reflexivity.
Qed.

(** X7. A failing input short-circuits: when [fa] fails with [e], [Map],
    [Bimap] (for its value function), [Chain] and [FilterOrElse] build
    [Error(e)] in the world [fa] left, whatever the function is, and the
    value [fa] returned beside the error is dropped for the zero
    value. *)
Theorem failure_short_circuits
    (A B : Type) `{ZeroValue A} `{ZeroValue B}
    (fa : Result A) (w : W) (a : A) (e : E) (w1 : W) :
  fa w = Ret (a, Some e) w1 ->
  (forall f : A -> M B, Map fa f w = Ret (Error (Some e)) w1) /\
  (forall (g : A -> M B) f err' w2,
      f (Some e) w1 = Ret err' w2 ->
      Bimap fa f g w = Ret (Error err') w2) /\
  (forall f : A -> M (Result B), Chain fa f w = Ret (Error (Some e)) w1) /\
  (forall (p : Predicate W A) (onFalse : A -> M error),
      FilterOrElse fa p onFalse w = Ret (Error (Some e)) w1) /\
  (forall w' : W,
      Error (A:=B) (Some e) w' = Ret (zero_value, Some e) w').
Proof.
  intros Hfa. repeat split_and.
  - intros f. open_go. rewrite Hfa. reflexivity.
  - intros g f err' w2 Hf. open_go. rewrite Hfa. cbn. rewrite Hf.
    reflexivity.
  - intros f. open_go. rewrite Hfa. reflexivity.
  - intros p onFalse. open_go. rewrite Hfa. reflexivity.
  - reflexivity.
Qed.

End MoreCases.

(** ** What is built, and how the functions compose *)

Section Settled.
Context {W E : Type}.
Local Abbreviation M := (M W).
Local Abbreviation error := (error E).
Local Abbreviation Result := (Result W E).

Lemma settled_Ok (A : Type) (a : A) : settled (Ok (W:=W) (E:=E) a).
Proof. exists (a, None). reflexivity. Qed.

Lemma settled_Error (A : Type) `{ZeroValue A} (err : error) :
  settled (Error (W:=W) (A:=A) err).
Proof. exists (zero_value, err). reflexivity. Qed.

(** From a run of a building function, the cases it went through. *)
Ltac trace_run H :=
  open_go; cbn in H;
  repeat (match type of H with
          | context [match ?m ?w with Ret _ _ => _ | Panic => _ end] =>
              destruct (m w) as [[? [?|]] ?|] || destruct (m w) as [? ?|]
          | context [if ?b then _ else _] => destruct b
          end; cbn in H);
  try discriminate H;
  injection H as <- <-.

Ltac settle H :=
  trace_run H; first [apply settled_Ok | apply settled_Error].

(** X8. What [Map], [Bimap], [Ap], [ChainFirst], [FilterOrElse],
    [ApFirst], [ApSecond] and [FromNilable] build is settled: the
    outcome was fixed while building, so invoking the product, once or
    many times, returns that same pair, changes nothing and invokes no
    input again. *)
Theorem products_are_settled :
  (forall (A B : Type) `(ZeroValue B) (fa : Result A) (f : A -> M B) w r w',
      Map fa f w = Ret r w' -> settled r) /\
  (forall (A B : Type) `(ZeroValue B)
      (fa : Result A) (f : error -> M error) (g : A -> M B) w r w',
      Bimap fa f g w = Ret r w' -> settled r) /\
  (forall (A B : Type) `(ZeroValue B)
      (fab : Result (A -> M B)) (fa : Result A) w r w',
      Ap fab fa w = Ret r w' -> settled r) /\
  (forall (A B : Type) `(ZeroValue A)
      (ma : Result A) (f : A -> M (Result B)) w r w',
      ChainFirst ma f w = Ret r w' -> settled r) /\
  (forall (A : Type) `(ZeroValue A)
      (ma : Result A) (p : Predicate W A) (onFalse : A -> M error) w r w',
      FilterOrElse ma p onFalse w = Ret r w' -> settled r) /\
  (forall (A B : Type) `(ZeroValue A) (fa : Result A) (fb : Result B) w r w',
      ApFirst fa fb w = Ret r w' -> settled r) /\
  (forall (A B : Type) `(ZeroValue B) (fa : Result A) (fb : Result B) w r w',
      ApSecond fa fb w = Ret r w' -> settled r) /\
  (forall (A : Type) `(ZeroValue A) (ma : Nilable A) (onNil : M error) w r w',
      FromNilable ma onNil w = Ret r w' -> settled r).
Proof.
  repeat split_and.
  - intros A B HB fa f w r w' Hrun. settle Hrun.
  - intros A B HB fa f g w r w' Hrun. settle Hrun.
  - intros A B HB fab fa w r w' Hrun. settle Hrun.
  - intros A B HA ma f w r w' Hrun. settle Hrun.
  - intros A HA ma p onFalse w r w' Hrun. settle Hrun.
  - intros A B HA fa fb w r w' Hrun. settle Hrun.
  - intros A B HB fa fb w r w' Hrun. settle Hrun.
  - intros A HA [a|] onNil w r w' Hrun; settle Hrun.
Qed.

End Settled.

Section HandedOn.
Context {W E : Type} (P : Probe W).
Local Abbreviation M := (M W).
Local Abbreviation error := (error E).
Local Abbreviation Result := (Result W E).

(** Building from a succeeding input that is handed on, then invoking
    the product. *)
Lemma twice_when_handed_on (A : Type) (i : nat) (fa : Result A)
    (c : M (Result A)) :
  quiet P fa -> always_succeeds fa ->
  (forall w a w1, fa (tick P i w) = Ret (a, None) w1 ->
                  c w = Ret (counted P i fa) w1) ->
  invoked P i 2 (built c).
Proof.
  intros Hq Hok Hc w.
  destruct (Hq (tick P i w)) as (p & w1 & Hrun & Hcount).
  destruct (Hok _ _ _ Hrun) as (a & ->).
  destruct (Hq (tick P i w1)) as (p2 & w2 & Hrun2 & Hcount2).
  exists (classify p2), w2. split.
  - unfold built, invoke, bind, ret. rewrite (Hc _ _ _ Hrun).
    unfold counted. rewrite Hrun2. reflexivity.
  - rewrite Hcount2, count_tick, Hcount, count_tick. reflexivity.
Qed.

(** X9. [MapError] and [OrElse] hand a succeeding input on as their
    product, so building from it and then invoking the product invokes
    the input twice; [Map], whose product is settled, invokes it
    once. *)
Theorem handed_on_is_invoked_twice
    (A : Type) `{ZeroValue A} (i : nat) (fa : Result A) :
  quiet P fa -> always_succeeds fa ->
  (forall f : error -> M error,
      invoked P i 2 (built (MapError (counted P i fa) f))) /\
  (forall onError : error -> M (Result A),
      invoked P i 2 (built (OrElse (counted P i fa) onError))) /\
  (forall f : A -> M A,
      (forall a, quiet P (f a)) ->
      invoked P i 1 (built (Map (counted P i fa) f))).
Proof.
  intros Hq Hok. repeat split_and.
  - intros f. apply twice_when_handed_on with (fa:=fa);
      [exact Hq | exact Hok |].
    intros w a w1 Hrun. unfold MapError, counted, bind. rewrite Hrun.
    reflexivity.
  - intros onError. apply twice_when_handed_on with (fa:=fa);
      [exact Hq | exact Hok |].
    intros w a w1 Hrun. unfold OrElse, counted, bind. rewrite Hrun.
    reflexivity.
  - intros f Hf w.
    destruct (Hq (tick P i w)) as (p & w1 & Hrun & Hcount).
    destruct (Hok _ _ _ Hrun) as (a & ->).
    destruct (Hf a w1) as (b & w2 & Hrun2 & Hcount2).
    exists (Success b), w2. split.
    + open_go. rewrite Hrun. cbn. rewrite Hrun2. reflexivity.
    + rewrite Hcount2, Hcount, count_tick. reflexivity.
Qed.

End HandedOn.

Section Composition.
Context {W E : Type}.
Local Abbreviation M := (M W).
Local Abbreviation error := (error E).
Local Abbreviation Result := (Result W E).

(** X10. [Map], [Ap] and [Bimap] against [Chain] and each other, as
    builders (same product, same world): [Map(fa, f)] is [Chain(fa, a =>
    Ok(f(a)))]; [Ap(fab, fa)] is [Chain(fab, ab => Map(fa, ab))];
    [Bimap] with an error function that returns its argument is
    [Map]. *)
Theorem derived_from_Chain (A B : Type) `{ZeroValue B} :
  (forall (fa : Result A) (f : A -> M B) w,
      Map fa f w = Chain fa (fun a => b <- f a ;; ret (Ok b)) w) /\
  (forall (fab : Result (A -> M B)) (fa : Result A) w,
      Ap fab fa w = Chain fab (fun ab => Map fa ab) w) /\
  (forall (fa : Result A) (g : A -> M B) w,
      Bimap fa (fun err => ret err) g w = Map fa g w).
Proof.
  repeat split_and.
  - intros fa f w. reflexivity.
  - intros fab fa w. run_go.
  - intros fa g w. run_go.
Qed.

(** X11. [ApFirst] and [ApSecond] as sequencing: [ApFirst(fa, fb)]
    builds what [ChainFirst(fa, _ => fb)] builds, in the same world; and
    building [ApSecond(fa, fb)] and invoking the product ends as
    building [Chain(fa, _ => fb)] and invoking the product does. *)
Theorem Ap_variants_sequence (A B : Type) `{ZeroValue A} `{ZeroValue B} :
  (forall (fa : Result A) (fb : Result B) w,
      ApFirst fa fb w = ChainFirst fa (fun _ => ret fb) w) /\
  (forall (fa : Result A) (fb : Result B) w,
      built (ApSecond fa fb) w = built (Chain fa (fun _ => ret fb)) w).
Proof.
  split.
  - intros fa fb w. run_go.
  - intros fa fb w. run_go.
Qed.

(** X12. [Fold] after a builder is [Fold] on the input with the
    functions composed into the handlers: for [Map], for [Chain], and,
    when the error function never returns nil, for [Bimap]. *)
Theorem Fold_fuses
    (A B C : Type) `{ZeroValue B}
    (fa : Result A) (h : error -> M C) (k : B -> M C) (w : W) :
  (forall f : A -> M B,
      (r <- Map fa f ;; Fold r h k) w
      = Fold fa h (fun a => b <- f a ;; k b) w) /\
  (forall f : A -> M (Result B),
      (r <- Chain fa f ;; Fold r h k) w
      = Fold fa h (fun a => r <- f a ;; Fold r h k) w) /\
  (forall (f : error -> M error) (g : A -> M B),
      keeps_errors f ->
      (r <- Bimap fa f g ;; Fold r h k) w
      = Fold fa (fun err => err' <- f err ;; h err')
                (fun a => b <- g a ;; k b) w).
Proof.
  repeat split_and.
  - intros f. run_go.
  - intros f. run_go.
  - intros f g Hkeep. open_go.
    destruct (fa w) as [[a [e|]] w1|] eqn:Hfa; cbn; [| |reflexivity].
    + destruct (f (Some e) w1) as [[e'|] w2|] eqn:Hf; cbn;
        [reflexivity | | reflexivity].
      now destruct (Hkeep _ _ _ _ Hf).
    + destruct (g a w1); reflexivity.
Qed.

(** X13. [FilterOrElse] composes: filtering on a predicate that always
    holds ends as invoking [ma] does; and, [onFalse] returning an error
    for every value, filtering on [p] and then on [q] ends as filtering
    once on [p && q] (with [q] called only where [p] held). *)
Theorem FilterOrElse_composes (A : Type) `{ZeroValue A} (ma : Result A) :
  (forall (onFalse : A -> M error) w,
      built (FilterOrElse ma (fun _ => ret true) onFalse) w = invoke ma w) /\
  (forall (p q : Predicate W A) (mkErr : A -> E) w,
      let onFalse := fun a => ret (Some (mkErr a)) in
      built (r <- FilterOrElse ma p onFalse ;; FilterOrElse r q onFalse) w
      = built (FilterOrElse ma
                 (fun a => ok <- p a ;; if ok then q a else ret false)
                 onFalse) w).
Proof.
  split.
  - intros onFalse w. run_go.
  - intros p q mkErr w. cbv zeta. open_go. cbn.
    destruct (ma w) as [[a [e|]] w1|]; cbn; try reflexivity.
    destruct (p a w1) as [[|] w2|]; reflexivity.
Qed.

(** X14. A nil error is no failure.  [Error(nil)] is [Zero]: it succeeds
    with the zero value.  So when [onNil], [onFalse] or the error function
    returns nil, [FromNilable] on a nil reference, [FilterOrElse] on a
    value the predicate rejects, and [MapError] and [Bimap] on a failing
    input all build a computation that succeeds with the zero value. *)
Theorem nil_error_is_success (A : Type) `{ZeroValue A} :
  (forall w : W, Error (E:=E) (A:=A) None w = Zero w) /\
  (forall (onNil : M error) w w1,
      onNil w = Ret None w1 ->
      built (FromNilable (A:=A) None onNil) w
      = Ret (Success zero_value) w1) /\
  (forall (ma : Result A) p onFalse w v w1 w2 w3,
      ma w = Ret (v, None) w1 ->
      p v w1 = Ret false w2 ->
      onFalse v w2 = Ret None w3 ->
      built (FilterOrElse ma p onFalse) w = Ret (Success zero_value) w3) /\
  (forall (fa : Result A) (f : error -> M error) w a e w1 w2,
      fa w = Ret (a, Some e) w1 ->
      f (Some e) w1 = Ret None w2 ->
      built (MapError fa f) w = Ret (Success zero_value) w2 /\
      forall (B : Type) (g : B -> M A) (fb : Result B) b,
        fb w = Ret (b, Some e) w1 ->
        built (Bimap fb f g) w = Ret (Success zero_value) w2).
Proof.
  repeat split_and.
  - reflexivity.
  - intros onNil w w1 HonNil. open_go. rewrite HonNil. reflexivity.
  - intros ma p onFalse w v w1 w2 w3 Hma Hp Hf. open_go.
    rewrite Hma. cbn. rewrite Hp. cbn. rewrite Hf. reflexivity.
  - intros fa f w a e w1 w2 Hfa Hf. split.
    + open_go. rewrite Hfa. cbn. rewrite Hf. reflexivity.
    + intros B g fb b Hfb. open_go. rewrite Hfb. cbn. rewrite Hf.
      reflexivity.
Qed.

(** X16. [Ap] on a function that is there: [Ap(Ok(f), fa)] builds what
    [Map(fa, f)] builds; so [Ap(Ok(f), Ok(a))] builds [Ok(f(a))], and
    applying the function that returns its argument ends as invoking
    [fa] does. *)
Theorem Ap_of_Ok (A B : Type) `{ZeroValue A} `{ZeroValue B} :
  (forall (f : A -> M B) (fa : Result A) w,
      Ap (Ok f) fa w = Map fa f w) /\
  (forall (f : A -> M B) (a : A) w,
      Ap (E:=E) (Ok f) (Ok a) w = (b <- f a ;; ret (Ok b)) w) /\
  (forall (fa : Result A) w,
      built (Ap (Ok (fun a => ret a)) fa) w = invoke fa w).
Proof.
  repeat split_and.
  - intros f fa w. reflexivity.
  - intros f a w. reflexivity.
  - intros fa w. run_go.
Qed.

End Composition.

Section NilFunctions.
Context {W E : Type}.
Local Abbreviation M := (M W).
Local Abbreviation error := (error E).
Local Abbreviation Result := (Result W E).


End NilFunctions.

(** ** The further properties at concrete values *)

Lemma ApFirst_cases_witness :
  Ok (W:=tally) (E:=string) 1%Z tally0 = Ret (1%Z, None) tally0 /\
  Ok (W:=tally) (E:=string) 2%Z tally0 = Ret (2%Z, None) tally0 /\
  ApFirst (E:=string) (Ok 1%Z) (Ok 2%Z) tally0 = Ret (Ok 1%Z) tally0.
Proof.
  repeat split_and; [reflexivity | reflexivity |].
  apply (proj2 (proj2 (ApFirst_cases (E:=string) (A:=Z) Z
                         (Ok 1%Z) tally0))
           1%Z tally0 (Ok 2%Z) 2%Z tally0);
    reflexivity.
Defined.

Lemma ApSecond_cases_witness :
  Ok (W:=tally) (E:=string) 1%Z tally0 = Ret (1%Z, None) tally0 /\
  Error (W:=tally) (A:=Z) (Some errFailed) tally0
    = Ret (0%Z, Some errFailed) tally0 /\
  ApSecond (Ok 1%Z) (Error (Some errFailed)) tally0
    = Ret (Error (A:=Z) (Some errFailed)) tally0.
Proof.
  repeat split_and; [reflexivity | reflexivity |].
  apply (proj1 (proj2 (ApSecond_cases (E:=string) (A:=Z) (B:=Z)
                         (Ok 1%Z) tally0))
           1%Z tally0 (Error (Some errFailed)) 0%Z errFailed tally0);
    reflexivity.
Defined.

Lemma MapError_cases_witness :
  nextInt tally0 = Ret (0%Z, None) (tally_tick 9 tally0) /\
  MapError nextInt (fun err => ret (wrappedError err)) tally0
    = Ret nextInt (tally_tick 9 tally0).
Proof.
  split; [reflexivity|].
  apply (proj1 (MapError_cases nextInt tally0)
           0%Z (tally_tick 9 tally0) (fun err => ret (wrappedError err))
           eq_refl).
Defined.

Lemma ChainFirst_cases_witness :
  nextInt tally0 = Ret (0%Z, None) (tally_tick 9 tally0) /\
  ChainFirst nextInt (fun _ => ret nextInt) tally0
    = Ret (Ok 0%Z) (tally_tick 9 (tally_tick 9 tally0)).
Proof.
  split; [reflexivity|].
  apply (proj2 (proj2 (ChainFirst_cases Z nextInt tally0))
           0%Z (tally_tick 9 tally0) (fun _ => ret nextInt) nextInt
           (tally_tick 9 tally0) 1%Z (tally_tick 9 (tally_tick 9 tally0)));
    reflexivity.
Defined.

Lemma GetOrElse_cases_witness :
  Error (W:=tally) (A:=Z) (Some errFailed) tally0
    = Ret (0%Z, Some errFailed) tally0 /\
  GetOrElse (Error (Some errFailed)) (fun _ => ret 7%Z) tally0
    = Ret 7%Z tally0.
Proof.
  split; [reflexivity|].
  apply (proj1 (proj2 (GetOrElse_cases (Error (Some errFailed)) tally0))
           0%Z errFailed tally0 (fun _ => ret 7%Z) eq_refl).
Defined.

Lemma OrElse_cases_witness :
  nextInt tally0 = Ret (0%Z, None) (tally_tick 9 tally0) /\
  OrElse nextInt (fun _ => ret (Ok 7%Z)) tally0
    = Ret nextInt (tally_tick 9 tally0).
Proof.
  split; [reflexivity|].
  apply (proj1 (OrElse_cases nextInt tally0)
           0%Z (tally_tick 9 tally0) (fun _ => ret (Ok 7%Z)) eq_refl).
Defined.

Lemma failure_short_circuits_witness :
  Error (W:=tally) (A:=Z) (Some errFailed) tally0
    = Ret (0%Z, Some errFailed) tally0 /\
  Map (Error (Some errFailed)) (fun n => ret (double n)) tally0
    = Ret (Error (Some errFailed)) tally0.
Proof.
  split; [reflexivity|].
  apply (proj1 (failure_short_circuits (A:=Z) (B:=Z)
                  (Error (Some errFailed)) tally0 eq_refl)
           (fun n => ret (double n))).
Defined.

Lemma products_are_settled_witness :
  Map one (fun n => ret (double n)) tally0
    = Ret (Ok 2%Z) (tally_tick 0 tally0) /\
  settled (Ok (W:=tally) (E:=string) 2%Z).
Proof.
  split; [reflexivity|].
  apply (proj1 (products_are_settled (W:=tally) (E:=string))
           Z Z _ one (fun n => ret (double n)) tally0 (Ok 2%Z)
           (tally_tick 0 tally0) eq_refl).
Defined.

Lemma handed_on_is_invoked_twice_witness :
  quiet tally_probe (Ok (W:=tally) (E:=string) 1%Z) /\
  always_succeeds (Ok (W:=tally) (E:=string) 1%Z) /\
  invoked tally_probe 0 2
    (built (MapError one (fun err => ret (wrappedError err)))).
Proof.
  assert (Hq : quiet tally_probe (Ok (W:=tally) (E:=string) 1%Z)).
  { intros w. exists (1%Z, None), w. split; reflexivity. }
  assert (Hok : always_succeeds (Ok (W:=tally) (E:=string) 1%Z)).
  { intros w p w' Hrun. injection Hrun as <- _. exists 1%Z. reflexivity. }
  split; [exact Hq|]. split; [exact Hok|].
  apply (proj1 (handed_on_is_invoked_twice 0 Hq Hok)
           (fun err => ret (wrappedError err))).
Defined.

Lemma Fold_fuses_witness :
  keeps_errors (W:=tally) (fun err => ret (wrappedError err)) /\
  (r <- Bimap (Error (Some errFailed))
          (fun err => ret (wrappedError err))
          (fun n : Z => ret (isPositive n)) ;;
   Fold r (fun _ => ret 0%Z) (fun b : bool => ret (if b then 1 else 2)%Z))
    tally0
  = Fold (Error (A:=Z) (Some errFailed))
      (fun err => err' <- ret (wrappedError err) ;; ret 0%Z)
      (fun n => b <- ret (isPositive n) ;; ret (if b then 1 else 2)%Z)
      tally0.
Proof.
  assert (Hkeep : keeps_errors (W:=tally) (fun err => ret (wrappedError err))).
  { intros e w err' w' Hrun. injection Hrun as <- _. discriminate. }
  split; [exact Hkeep|].
  apply (proj2 (proj2 (Fold_fuses (A:=Z) (B:=bool) (C:=Z)
                         (Error (Some errFailed))
                         (fun _ => ret 0%Z)
                         (fun b : bool => ret (if b then 1 else 2)%Z)
                         tally0))
           (fun err => ret (wrappedError err))
           (fun n : Z => ret (isPositive n)) Hkeep).
Defined.

Lemma nil_error_is_success_witness :
  ret (W:=tally) (None : error string) tally0 = Ret None tally0 /\
  built (FromNilable (A:=Z) None (ret None)) tally0
    = Ret (Success (E:=string) 0%Z) tally0.
Proof.
  split; [reflexivity|].
  apply (proj1 (proj2 (nil_error_is_success (W:=tally) (E:=string) (A:=Z)))
           (ret None) tally0 tally0 eq_refl).
Defined.
